(** * Password reset service of UserAuth-API

    A shallow embedding of [services/password_reset_service.py] over the
    SQLite tables it reads and writes ([users] and [password_reset_tokens],
    see [migrations/create_password_reset_tokens.py]).

    - Timestamps ([datetime.utcnow()], the [expires_at] column) are integers
      of one clock unit.  The service stores [expires_at] with [isoformat()]
      and reads it back with [fromisoformat()], an exact round trip; the
      cleanup query compares the ISO strings in SQL, and for fixed-width ISO
      timestamps the string order is the time order, so both comparisons are
      the integer comparison below.
    - Every SQL statement is one function on the database state.  The
      statements of one service call run in sequence; the only failure of the
      database that is modelled is the UNIQUE constraint on [token].
    - The outcomes of the collaborators (mail delivery, the credential
      update) are explicit boolean inputs; the password hash function is a
      section variable. *)

From Stdlib Require Import String Ascii ZArith List Bool Lia.
Import ListNotations.
Open Scope Z_scope.
Open Scope string_scope.

(** ** Data model *)

(** A row of [password_reset_tokens]. *)
Record token_row := mk_token_row {
  tr_user_id : Z;
  tr_token : string;
  tr_expires_at : Z;
  tr_used : bool
}.

(** A row of [users]. *)
Record user := mk_user {
  u_id : Z;
  u_name : string;
  u_email : string;
  u_password : string
}.

(** The [User] object built by [_validate_reset_token]. *)
Record user_ref := mk_user_ref {
  ru_id : Z;
  ru_name : string;
  ru_email : string
}.

Record db := mk_db {
  users : list user;
  password_reset_tokens : list token_row
}.

(** A Python [str] as its sequence of code points ([len] counts them). *)
Definition pystr := list Z.

(** The dictionaries returned by the service: [{"success": True,
    "message": m}] or [{"error": e}]. *)
Inductive result :=
| RSuccess (message : string)
| RError (error : string).

Definition generic_reset_message : string :=
  "If the email exists in our system, you will receive a password reset link.".

(** [self.token_expiry_hours = 1], [timedelta(hours=...)] in seconds. *)
Definition token_expiry_hours : Z := 1.
Definition token_ttl : Z := token_expiry_hours * 3600.

(** ** SQL statements *)

(** [SELECT ... FROM password_reset_tokens WHERE token = ?]: the column is
    UNIQUE, the first row found is the row. *)
Definition find_token (tok : string) (rows : list token_row) : option token_row :=
  find (fun r => String.eqb (tr_token r) tok) rows.

(** [JOIN users u ON prt.user_id = u.id]. *)
Definition find_user_by_id (uid : Z) (us : list user) : option user :=
  find (fun u => Z.eqb (u_id u) uid) us.

(** Modelled from the spec: [User.find_by_email] (the module [models/user.py]
    is not in the sources): the User Directory's
    [findByEmail(email) -> {id, name, email} | none]. *)
Definition find_by_email (email : string) (us : list user) : option user :=
  find (fun u => String.eqb (u_email u) email) us.

(** [DELETE FROM password_reset_tokens WHERE user_id = ?]. *)
Definition delete_tokens_of_user (uid : Z) (st : db) : db :=
  mk_db (users st)
    (filter (fun r => negb (Z.eqb (tr_user_id r) uid)) (password_reset_tokens st)).

(** [INSERT INTO password_reset_tokens ...]: fails (an [IntegrityError]) when
    the token is already present. *)
Definition insert_token (row : token_row) (st : db) : option db :=
  match find_token (tr_token row) (password_reset_tokens st) with
  | Some _ => None
  | None => Some (mk_db (users st) (password_reset_tokens st ++ [row]))
  end.

(** [UPDATE password_reset_tokens SET used = ? WHERE token = ?] with [True]. *)
Definition set_used (tok : string) (st : db) : db :=
  mk_db (users st)
    (map (fun r => if String.eqb (tr_token r) tok
                   then mk_token_row (tr_user_id r) (tr_token r) (tr_expires_at r) true
                   else r)
         (password_reset_tokens st)).

(** [UPDATE users SET password = ? WHERE id = ?]. *)
Definition set_password (uid : Z) (hashed : string) (st : db) : db :=
  mk_db
    (map (fun u => if Z.eqb (u_id u) uid
                   then mk_user (u_id u) (u_name u) (u_email u) hashed
                   else u)
         (users st))
    (password_reset_tokens st).

(** The predicate of the cleanup queries:
    [expires_at < ? OR used = ?] with the current time and [True]. *)
Definition purge_pred (now : Z) (r : token_row) : bool :=
  Z.ltb (tr_expires_at r) now || tr_used r.

(** ** The service [PasswordResetService] *)

Section Service.

(** [werkzeug.security.generate_password_hash]. *)
Variable generate_password_hash : pystr -> string.

(** [_store_reset_token(user_id, token)] at time [now]: the DELETE of the
    user's old tokens runs first; a failing INSERT is caught and answered
    with [False], after the DELETE has run. *)
Definition _store_reset_token (st : db) (user_id : Z) (token : string) (now : Z)
  : bool * db :=
  let expires_at := now + token_ttl in
  let st1 := delete_tokens_of_user user_id st in
  match insert_token (mk_token_row user_id token expires_at false) st1 with
  | Some st2 => (true, st2)
  | None => (false, st1)
  end.

(** [_validate_reset_token(token)] at time [now]. *)
Definition _validate_reset_token (st : db) (token : string) (now : Z)
  : option user_ref :=
  match find_token token (password_reset_tokens st) with
  | None => None
  | Some r =>
      match find_user_by_id (tr_user_id r) (users st) with
      | None => None
      | Some u =>
          if tr_used r then None
          else if Z.ltb (tr_expires_at r) now then None
          else Some (mk_user_ref (tr_user_id r) (u_name u) (u_email u))
      end
  end.

(** [_update_user_password(user_id, hashed_password)]; [update_ok] is whether
    the UPDATE statement runs without an exception. *)
Definition _update_user_password (update_ok : bool) (st : db) (user_id : Z)
  (hashed_password : string) : bool * db :=
  if update_ok then (true, set_password user_id hashed_password st)
  else (false, st).

(** [_mark_token_as_used(token)]. *)
Definition _mark_token_as_used (st : db) (token : string) : bool * db :=
  (true, set_used token st).

(** [cleanup_expired_tokens()] at time [now]: the COUNT and the DELETE use the
    same predicate and the same [current_time]. *)
Definition cleanup_expired_tokens (st : db) (now : Z) : Z * db :=
  let count := Z.of_nat (length (filter (purge_pred now) (password_reset_tokens st))) in
  (count,
   mk_db (users st)
     (filter (fun r => negb (purge_pred now r)) (password_reset_tokens st))).

(** Python's [not user or not user.id]. *)
Definition no_user (user : option user) : bool :=
  match user with
  | None => true
  | Some u => Z.eqb (u_id u) 0
  end.

(** [request_password_reset(email)]: [token] is the value returned by
    [_generate_reset_token()], [mail_ok] the result of
    [email_service.send_password_reset_email]. *)
Definition request_password_reset (st : db) (email : string) (token : string)
  (now : Z) (mail_ok : bool) : result * db :=
  match find_by_email email (users st) with
  | None => (RSuccess generic_reset_message, st)
  | Some user =>
      if Z.eqb (u_id user) 0 then (RSuccess generic_reset_message, st)
      else
        let '(stored, st1) := _store_reset_token st (u_id user) token now in
        if negb stored then (RError "Failed to process password reset request", st1)
        else if mail_ok then (RSuccess generic_reset_message, st1)
        else (RError "Failed to send password reset email", st1)
  end.

(** [reset_password(token, new_password)] at time [now]; [update_ok] is
    whether the credential UPDATE succeeds.  The confirmation mail does not
    change the result. *)
Definition reset_password (st : db) (token : string) (new_password : pystr)
  (now : Z) (update_ok : bool) : result * db :=
  match _validate_reset_token st token now with
  | None => (RError "Invalid or expired reset token", st)
  | Some user =>
      if String.eqb (ru_email user) "" || Z.eqb (ru_id user) 0 then
        (RError "Invalid or expired reset token", st)
      else if Nat.ltb (length new_password) 8 then
        (RError "Password must be at least 8 characters long", st)
      else
        let hashed_password := generate_password_hash new_password in
        let '(updated, st1) := _update_user_password update_ok st (ru_id user) hashed_password in
        if negb updated then (RError "Failed to update password", st1)
        else
          let '(_, st2) := _mark_token_as_used st1 token in
          (RSuccess "Password has been reset successfully", st2)
  end.

(** [validate_reset_token(token)]: [{"valid": True, "email": ...}] or
    [{"valid": False}]; the database is not written. *)
Definition validate_reset_token (st : db) (token : string) (now : Z)
  : option string :=
  match _validate_reset_token st token now with
  | Some user => Some (ru_email user)
  | None => None
  end.

(** The calls a client or the scheduler can make, with their inputs from the
    environment (the clock, the generated token, the collaborators). *)
Inductive service_call :=
| CallRequest (email : string) (generated : string) (now : Z) (mail_ok : bool)
| CallReset (token : string) (new_password : pystr) (now : Z) (update_ok : bool)
| CallValidate (token : string) (now : Z)
| CallCleanup (now : Z).

Definition run_call (st : db) (c : service_call) : db :=
  match c with
  | CallRequest email generated now mail_ok =>
      snd (request_password_reset st email generated now mail_ok)
  | CallReset token pw now update_ok => snd (reset_password st token pw now update_ok)
  | CallValidate _ _ => st
  | CallCleanup now => snd (cleanup_expired_tokens st now)
  end.

Definition run_calls (st : db) (cs : list service_call) : db :=
  fold_left run_call cs st.

(** The token a call asks the generator for, if any. *)
Definition generated_token (c : service_call) : option string :=
  match c with
  | CallRequest _ generated _ _ => Some generated
  | _ => None
  end.

(** States reached from an empty token table by calls of the service. *)
Inductive reachable : db -> Prop :=
| reachable_init (us : list user) : reachable (mk_db us [])
| reachable_step (st : db) (c : service_call) :
    reachable st -> reachable (run_call st c).

End Service.

(** ** The token generator [_generate_reset_token] *)

(** [string.ascii_letters] and [string.digits]. *)
Definition ascii_letters : string :=
  "abcdefghijklmnopqrstuvwxyzABCDEFGHIJKLMNOPQRSTUVWXYZ".
Definition digits : string := "0123456789".
Definition token_alphabet : string := ascii_letters ++ digits.

(** [''.join(secrets.choice(alphabet) for _ in range(32))]:
    [secrets.choice(seq)] is [seq[secrets.randbelow(len(seq))]], and
    [draw k] is the value of the k-th [randbelow] call. *)
Definition _generate_reset_token (draw : nat -> nat) : string :=
  string_of_list_ascii
    (map (fun k => nth (draw k) (list_ascii_of_string token_alphabet) "0"%char)
         (seq 0 32)).

(** Position of a character in a list (proof device for the generator). *)
Fixpoint index_of (c : ascii) (l : list ascii) : nat :=
  match l with
  | [] => 0
  | x :: l' => if Ascii.eqb x c then 0 else S (index_of c l')
  end.

(** ** The mail collaborator [EmailService] *)

(** The SMTP credentials read by [EmailService.__init__]. *)
Record email_service := mk_email_service {
  smtp_username : string;
  smtp_password : string
}.

(** [self.use_console = not (self.smtp_username and self.smtp_password)]. *)
Definition use_console (es : email_service) : bool :=
  negb (negb (String.eqb (smtp_username es) "") && negb (String.eqb (smtp_password es) "")).

(** [_send_email]: the console path prints and answers [True]; the SMTP path
    answers [True] unless the SMTP exchange raises ([smtp_ok = false]), which
    is caught and answered with [False]. *)
Definition _send_email (es : email_service) (smtp_ok : bool) : bool :=
  if use_console es then true else smtp_ok.

(** [send_password_reset_email(to_email, reset_token, user_name)]: building
    the subject, the link and the bodies cannot fail; the answer is
    [_send_email]'s. *)
Definition send_password_reset_email (es : email_service) (to_email reset_token : string)
  (user_name : option string) (smtp_ok : bool) : bool :=
  _send_email es smtp_ok.

(** Rows of one user and of the other users. *)
Definition rows_of_user (uid : Z) (rows : list token_row) : list token_row :=
  filter (fun r => Z.eqb (tr_user_id r) uid) rows.
Definition rows_of_others (uid : Z) (rows : list token_row) : list token_row :=
  filter (fun r => negb (Z.eqb (tr_user_id r) uid)) rows.

(** ** Invariants of the token table *)

(** The UNIQUE constraint on [token], at most one row per user (the DELETE
    before each INSERT) and the foreign key to [users]. *)
Definition well_formed (st : db) : Prop :=
  NoDup (map tr_token (password_reset_tokens st)) /\
  NoDup (map tr_user_id (password_reset_tokens st)) /\
  (forall r, In r (password_reset_tokens st) -> In (tr_user_id r) (map u_id (users st))).

(** Unexpired, unused tokens of a user at time [now]. *)
Definition live_tokens_of (st : db) (uid : Z) (now : Z) : list token_row :=
  filter (fun r => Z.eqb (tr_user_id r) uid && negb (tr_used r) && Z.leb now (tr_expires_at r))
    (password_reset_tokens st).

(** ** Sample states *)

Definition alice : user := mk_user 1 "Alice" "alice@example.com" "old-hash".
Definition bob : user := mk_user 2 "Bob" "bob@example.com" "old-hash".

Definition sample_db : db :=
  mk_db [alice; bob]
    [mk_token_row 1 "tokA" 100 false; mk_token_row 2 "tokB" 100 true].

Definition hash_id (p : pystr) : string := "hashed".

Definition short_password : pystr := [115; 104; 111; 114; 116]%Z.
Definition long_password : pystr := [108; 111; 110; 103; 101; 110; 111; 117; 103; 104]%Z.

(** Alice asks for a reset at time 0 and receives the token ["tokA"]. *)
Definition issued_db : db :=
  run_call hash_id (mk_db [alice; bob] []) (CallRequest "alice@example.com" "tokA" 0 true).

(** Alice then resets her password with ["tokA"] at time 10. *)
Definition consumed_db : db :=
  run_call hash_id issued_db (CallReset "tokA" long_password 10 true).

(** Three expired, two used and two valid tokens, cleaned at time 1000. *)
Definition mixed_db : db :=
  mk_db [alice; bob]
    [mk_token_row 1 "e1" 500 false; mk_token_row 2 "e2" 600 false;
     mk_token_row 3 "e3" 999 false; mk_token_row 4 "u1" 2000 true;
     mk_token_row 5 "u2" 2000 true; mk_token_row 6 "v1" 1000 false;
     mk_token_row 7 "v2" 3000 false].

(** ** Lemmas on the statements *)

Example validate_sample_valid :
  _validate_reset_token sample_db "tokA" 100 = Some (mk_user_ref 1 "Alice" "alice@example.com").
Proof. reflexivity. Qed.

Example validate_sample_expired : _validate_reset_token sample_db "tokA" 101 = None.
Proof. reflexivity. Qed.

Example validate_sample_used : _validate_reset_token sample_db "tokB" 0 = None.
Proof. reflexivity. Qed.

Lemma rows_filter_nodup {B} (proj : token_row -> B) (keep : token_row -> bool)
  (rows : list token_row) :
  NoDup (map proj rows) -> NoDup (map proj (filter keep rows)).
Proof.
  induction rows as [|r rows IH]; intros H; simpl in *; [exact H|].
  apply NoDup_cons_iff in H as [Hr H].
  destruct (keep r); simpl; [|auto].
  apply NoDup_cons_iff; split; [|auto].
  intros Hin; apply Hr. rewrite in_map_iff in *.
  destruct Hin as (x & <- & Hx). exists x. rewrite filter_In in Hx. tauto.
Qed.

Lemma nodup_snoc {A} (l : list A) (x : A) :
  NoDup l -> ~ In x l -> NoDup (l ++ [x]).
Proof.
  intros Hl Hx. apply NoDup_app; auto.
  - constructor; [intros []| constructor].
  - intros a Ha [<- | []]. contradiction.
Qed.

Lemma find_token_none (tok : string) (rows : list token_row) :
  find_token tok rows = None <-> ~ In tok (map tr_token rows).
Proof.
  unfold find_token; split.
  - intros Hf Hin. apply in_map_iff in Hin as (r & Hr & Hin).
    pose proof (find_none _ _ Hf r Hin) as Hb. simpl in Hb.
    rewrite Hr, String.eqb_refl in Hb. discriminate.
  - intros Hnot. destruct (find _ rows) as [r|] eqn:Hf; [|reflexivity].
    apply find_some in Hf as [Hin Hb]. apply String.eqb_eq in Hb.
    exfalso; apply Hnot, in_map_iff; eauto.
Qed.

Lemma find_token_some (tok : string) (rows : list token_row) (r : token_row) :
  find_token tok rows = Some r -> In r rows /\ tr_token r = tok.
Proof.
  unfold find_token; intros Hf.
  apply find_some in Hf as [Hin Hb]. apply String.eqb_eq in Hb. auto.
Qed.

Lemma find_token_unique (tok : string) (rows : list token_row) (r : token_row) :
  NoDup (map tr_token rows) -> In r rows -> tr_token r = tok ->
  find_token tok rows = Some r.
Proof.
  unfold find_token.
  induction rows as [|a rows IH]; simpl; intros Hnd Hin Htok; [contradiction|].
  inversion Hnd as [|? ? Hnot Hnd']; subst.
  destruct Hin as [-> | Hin].
  - rewrite String.eqb_refl. reflexivity.
  - destruct (String.eqb (tr_token a) (tr_token r)) eqn:E.
    + apply String.eqb_eq in E. exfalso; apply Hnot.
      rewrite E. apply in_map; auto.
    + auto.
Qed.

Lemma find_user_by_id_in (uid : Z) (us : list user) :
  In uid (map u_id us) -> exists u, find_user_by_id uid us = Some u.
Proof.
  unfold find_user_by_id; intros Hin.
  destruct (find _ us) as [u|] eqn:Hf; [eauto|].
  apply in_map_iff in Hin as (u & Hu & Hin).
  pose proof (find_none _ _ Hf u Hin) as Hb. simpl in Hb.
  rewrite Hu, Z.eqb_refl in Hb. discriminate.
Qed.

Lemma find_by_email_in (email : string) (us : list user) (u : user) :
  find_by_email email us = Some u -> In u us.
Proof. unfold find_by_email; intros Hf. apply find_some in Hf. tauto. Qed.

Lemma well_formed_delete (uid : Z) (st : db) :
  well_formed st -> well_formed (delete_tokens_of_user uid st).
Proof.
  intros (Ht & Hu & Href). unfold delete_tokens_of_user; repeat split; simpl.
  - apply rows_filter_nodup; auto.
  - apply rows_filter_nodup; auto.
  - intros r Hin. apply filter_In in Hin as [Hin _]. auto.
Qed.

Lemma delete_no_user_row (uid : Z) (st : db) :
  ~ In uid (map tr_user_id (password_reset_tokens (delete_tokens_of_user uid st))).
Proof.
  simpl; intros Hin. apply in_map_iff in Hin as (r & Hr & Hin).
  apply filter_In in Hin as [_ Hb]. rewrite Hr, Z.eqb_refl in Hb. discriminate.
Qed.

Lemma well_formed_store (st : db) (u : user) (token : string) (now : Z) :
  well_formed st -> In u (users st) ->
  well_formed (snd (_store_reset_token st (u_id u) token now)).
Proof.
  intros Hwf Huser. unfold _store_reset_token, insert_token.
  pose proof (well_formed_delete (u_id u) st Hwf) as Hwf1.
  destruct (find_token _ _) eqn:Hf; simpl; [exact Hwf1|].
  destruct Hwf1 as (Ht & Hu & Href).
  apply find_token_none in Hf. simpl in *.
  repeat split; simpl.
  - rewrite map_app. apply nodup_snoc; auto.
  - rewrite map_app. apply nodup_snoc; auto.
    exact (delete_no_user_row (u_id u) st).
  - intros r Hin. apply in_app_or in Hin as [Hin | [<- | []]]; auto.
    simpl. apply in_map; auto.
Qed.

Lemma well_formed_set_used (tok : string) (st : db) :
  well_formed st -> well_formed (set_used tok st).
Proof.
  intros (Ht & Hu & Href). unfold set_used; simpl.
  assert (Hmt : forall (B : Type) (f : token_row -> B),
             (forall r, f (mk_token_row (tr_user_id r) (tr_token r) (tr_expires_at r) true) = f r) ->
             map f (map (fun r => if String.eqb (tr_token r) tok
                                  then mk_token_row (tr_user_id r) (tr_token r) (tr_expires_at r) true
                                  else r) (password_reset_tokens st))
             = map f (password_reset_tokens st)).
  { intros B f Hf. rewrite map_map. apply map_ext. intros r.
    destruct (String.eqb _ _); auto. }
  repeat split; simpl.
  - rewrite Hmt; auto.
  - rewrite Hmt; auto.
  - intros r Hin. apply in_map_iff in Hin as (r0 & Hr0 & Hin).
    destruct (String.eqb _ _); subst; simpl; apply Href; auto.
Qed.

Lemma set_password_ids (uid : Z) (h : string) (st : db) :
  map u_id (users (set_password uid h st)) = map u_id (users st).
Proof.
  simpl. rewrite map_map. apply map_ext. intros u. destruct (Z.eqb _ _); reflexivity.
Qed.

Lemma well_formed_set_password (uid : Z) (h : string) (st : db) :
  well_formed st -> well_formed (set_password uid h st).
Proof.
  intros (Ht & Hu & Href). repeat split; auto.
  intros r Hin. rewrite set_password_ids. auto.
Qed.

Lemma well_formed_run_call (hash : pystr -> string) (st : db) (c : service_call) :
  well_formed st -> well_formed (run_call hash st c).
Proof.
  intros Hwf. destruct c as [email gen now ok | tok pw now ok | tok now | now]; simpl.
  - unfold request_password_reset.
    destruct (find_by_email email (users st)) as [u|] eqn:Hu; [|exact Hwf].
    destruct (Z.eqb (u_id u) 0); [exact Hwf|].
    pose proof (well_formed_store st u gen now Hwf (find_by_email_in _ _ _ Hu)) as H.
    destruct (_store_reset_token st (u_id u) gen now) as [b st1]; simpl in H.
    destruct b, ok; exact H.
  - unfold reset_password.
    destruct (_validate_reset_token st tok now) as [v|]; [|exact Hwf].
    destruct (_ || _); [exact Hwf|].
    destruct (Nat.ltb _ _); [exact Hwf|].
    unfold _update_user_password, _mark_token_as_used.
    destruct ok; simpl; [|exact Hwf].
    apply well_formed_set_used, well_formed_set_password; exact Hwf.
  - exact Hwf.
  - destruct Hwf as (Ht & Hu & Href). repeat split; simpl.
    + apply rows_filter_nodup; auto.
    + apply rows_filter_nodup; auto.
    + intros r Hin. apply filter_In in Hin as [Hin _]. auto.
Qed.

Lemma reachable_well_formed (hash : pystr -> string) (st : db) :
  reachable hash st -> well_formed st.
Proof.
  induction 1 as [us | st c _ IH].
  - repeat split; simpl; try constructor. intros r [].
  - apply well_formed_run_call; exact IH.
Qed.

(** ** Claims *)

(** C1: in every reachable state, [_validate_reset_token] returns the user
    joined to the token's row exactly when the row exists, is unused and
    [now <= expires_at]; otherwise (no row, used, or [expires_at < now]) it
    returns [None].  At [now = expires_at] the token still validates, one
    unit later it is expired. *)
Theorem lookup_valid_iff (hash : pystr -> string) (st : db) (Hr : reachable hash st)
  (tok : string) (now : Z) :
  (forall v,
     _validate_reset_token st tok now = Some v <->
     exists r u,
       find_token tok (password_reset_tokens st) = Some r /\
       tr_used r = false /\ now <= tr_expires_at r /\
       find_user_by_id (tr_user_id r) (users st) = Some u /\
       v = mk_user_ref (tr_user_id r) (u_name u) (u_email u)) /\
  (_validate_reset_token st tok now = None <->
     find_token tok (password_reset_tokens st) = None \/
     exists r, find_token tok (password_reset_tokens st) = Some r /\
               (tr_used r = true \/ tr_expires_at r < now)) /\
  (forall r, find_token tok (password_reset_tokens st) = Some r -> tr_used r = false ->
     _validate_reset_token st tok (tr_expires_at r) <> None /\
     _validate_reset_token st tok (tr_expires_at r + 1) = None).
Proof.
  pose proof (reachable_well_formed hash st Hr) as (_ & _ & Href).
  unfold _validate_reset_token.
  destruct (find_token tok (password_reset_tokens st)) as [r|] eqn:Hf.
  2:{ split; [|split].
      - intros v; split; [discriminate|]. intros (r & u & H & _); discriminate.
      - split; auto.
      - intros r H; discriminate. }
  destruct (find_token_some _ _ _ Hf) as [Hin _].
  destruct (find_user_by_id_in _ _ (Href r Hin)) as [u Hu].
  rewrite Hu.
  split; [|split].
  - intros v; split.
    + destruct (tr_used r) eqn:Hused; [discriminate|].
      destruct (Z.ltb (tr_expires_at r) now) eqn:Hlt; [discriminate|].
      intros Hv; injection Hv as <-. apply Z.ltb_ge in Hlt.
      exists r, u; repeat split; auto.
    + intros (r' & u' & Hr' & Hused & Hle & Hu' & ->).
      injection Hr' as <-. rewrite Hu in Hu'; injection Hu' as <-.
      rewrite Hused. apply Z.ltb_ge in Hle. rewrite Hle. reflexivity.
  - split.
    + intros Hn. right; exists r; split; auto.
      destruct (tr_used r); auto.
      destruct (Z.ltb (tr_expires_at r) now) eqn:Hlt; [|discriminate].
      apply Z.ltb_lt in Hlt; auto.
    + intros [Hn | (r' & Hr' & Hc)]; [discriminate|].
      injection Hr' as <-.
      destruct Hc as [-> | Hlt]; auto.
      apply Z.ltb_lt in Hlt. rewrite Hlt. destruct (tr_used r); auto.
  - intros r' Hr' Hused. injection Hr' as <-. rewrite Hused.
    rewrite Z.ltb_irrefl. split; [discriminate|].
    replace (Z.ltb (tr_expires_at r) (tr_expires_at r + 1)) with true; auto.
    symmetry; apply Z.ltb_lt; lia.
Qed.

Lemma issued_db_reachable : reachable hash_id issued_db.
Proof. exact (reachable_step hash_id _ _ (reachable_init hash_id [alice; bob])). Qed.

Lemma lookup_valid_iff_witness :
  reachable hash_id issued_db /\
  _validate_reset_token issued_db "tokA" token_ttl = Some (mk_user_ref 1 "Alice" "alice@example.com").
Proof.
  assert (Hr : reachable hash_id issued_db)
    by exact (reachable_step hash_id _ _ (reachable_init hash_id [alice; bob])).
  split; [exact Hr|].
  apply (proj1 (lookup_valid_iff hash_id issued_db Hr "tokA" token_ttl)).
  exists (mk_token_row 1 "tokA" token_ttl false), alice.
  repeat split; vm_compute; try reflexivity; discriminate.
Defined.

Lemma validate_no_row (st : db) (tok : string) (now : Z) :
  find_token tok (password_reset_tokens st) = None ->
  _validate_reset_token st tok now = None.
Proof. unfold _validate_reset_token; intros ->; reflexivity. Qed.

Lemma nodup_map_inj {A B} (f : A -> B) (l : list A) (x y : A) :
  NoDup (map f l) -> In x l -> In y l -> f x = f y -> x = y.
Proof.
  induction l as [|a l IH]; simpl; intros Hnd Hx Hy Hf; [contradiction|].
  inversion Hnd as [|? ? Hnot Hnd']; subst.
  destruct Hx as [<- | Hx], Hy as [<- | Hy]; auto.
  - exfalso; apply Hnot. rewrite Hf. apply in_map; auto.
  - exfalso; apply Hnot. rewrite <- Hf. apply in_map; auto.
Qed.

Lemma filter_one_user_le1 (l : list token_row) (uid : Z) (p : token_row -> bool) :
  (forall r, p r = true -> tr_user_id r = uid) ->
  NoDup (map tr_user_id l) -> (length (filter p l) <= 1)%nat.
Proof.
  intros Hp. induction l as [|a l IH]; simpl; intros Hnd; [lia|].
  inversion Hnd as [|? ? Hnot Hnd']; subst.
  destruct (p a) eqn:Ea; simpl; [|auto].
  destruct (filter p l) as [|x rest] eqn:Hfl; simpl; [lia|].
  assert (Hx : In x (filter p l)) by (rewrite Hfl; left; reflexivity).
  apply filter_In in Hx as [Hx Hpx].
  exfalso; apply Hnot. rewrite (Hp a Ea), <- (Hp x Hpx). apply in_map; auto.
Qed.

(** C2: in every reachable state, once [_store_reset_token] has stored a new
    token [t2] for a user, no earlier token [t1 <> t2] of that user is left
    in the table, so it no longer validates; and every reachable state has at
    most one unused, unexpired token per user. *)
Theorem issue_invalidates_previous (hash : pystr -> string) (st : db)
  (Hr : reachable hash st) :
  (forall uid t1 t2 now now' st',
     (exists r, In r (password_reset_tokens st) /\ tr_user_id r = uid /\ tr_token r = t1) ->
     t1 <> t2 ->
     _store_reset_token st uid t2 now = (true, st') ->
     find_token t1 (password_reset_tokens st') = None /\
     _validate_reset_token st' t1 now' = None) /\
  (forall uid now, (length (live_tokens_of st uid now) <= 1)%nat).
Proof.
  pose proof (reachable_well_formed hash st Hr) as (Ht & Hu & _).
  split.
  - intros uid t1 t2 now now' st' (r & Hin & Huid & Htok) Hne Hstore.
    unfold _store_reset_token, insert_token in Hstore.
    destruct (find_token _ _); [discriminate|].
    injection Hstore as <-.
    assert (Hnone : find_token t1
              (password_reset_tokens (mk_db (users st)
                 (password_reset_tokens (delete_tokens_of_user uid st) ++
                  [mk_token_row uid t2 (now + token_ttl) false]))) = None).
    { apply find_token_none. simpl. rewrite map_app. intros Hin'.
      apply in_app_or in Hin' as [Hin' | [Heq | []]]; [|simpl in Heq; congruence].
      apply in_map_iff in Hin' as (r' & Hr' & Hin').
      apply filter_In in Hin' as [Hin' Hb].
      rewrite (nodup_map_inj tr_token _ r' r Ht Hin' Hin ltac:(congruence)) in Hb.
      rewrite Huid, Z.eqb_refl in Hb. discriminate. }
    split; [exact Hnone|].
    apply validate_no_row; exact Hnone.
  - intros uid now. unfold live_tokens_of.
    apply (filter_one_user_le1 _ uid); auto.
    intros r Hp. apply andb_prop in Hp as [Hp _]. apply andb_prop in Hp as [Hp _].
    apply Z.eqb_eq; exact Hp.
Qed.

Lemma issue_invalidates_previous_witness :
  find_token "tokA"
    (password_reset_tokens (snd (_store_reset_token issued_db 1 "tokA2" 50))) = None /\
  _validate_reset_token (snd (_store_reset_token issued_db 1 "tokA2" 50)) "tokA" 60 = None.
Proof.
  assert (Hr : reachable hash_id issued_db)
    by exact (reachable_step hash_id _ _ (reachable_init hash_id [alice; bob])).
  apply (proj1 (issue_invalidates_previous hash_id issued_db Hr) 1 "tokA" "tokA2" 50 60).
  - exists (mk_token_row 1 "tokA" token_ttl false). split; [vm_compute; left; reflexivity|].
    split; reflexivity.
  - discriminate.
  - reflexivity.
Defined.

Lemma store_rows (st : db) (uid : Z) (token : string) (now : Z) (r : token_row) :
  In r (password_reset_tokens (snd (_store_reset_token st uid token now))) ->
  In r (password_reset_tokens st) \/ r = mk_token_row uid token (now + token_ttl) false.
Proof.
  unfold _store_reset_token, insert_token.
  destruct (find_token _ _); simpl; intros Hin.
  - apply filter_In in Hin; tauto.
  - apply in_app_or in Hin as [Hin | [<- | []]]; [|auto].
    apply filter_In in Hin; tauto.
Qed.

Lemma run_call_keeps_used (hash : pystr -> string) (st : db) (c : service_call) (tok : string) :
  (forall r, In r (password_reset_tokens st) -> tr_token r = tok -> tr_used r = true) ->
  generated_token c <> Some tok ->
  forall r, In r (password_reset_tokens (run_call hash st c)) -> tr_token r = tok -> tr_used r = true.
Proof.
  intros Hall Hgen.
  destruct c as [email gen now ok | t pw now ok | t now | now]; simpl in *.
  - unfold request_password_reset.
    destruct (find_by_email email (users st)) as [u|]; [|exact Hall].
    destruct (Z.eqb (u_id u) 0); [exact Hall|].
    intros r Hin Htok.
    assert (Hin' : In r (password_reset_tokens (snd (_store_reset_token st (u_id u) gen now)))).
    { destruct (_store_reset_token st (u_id u) gen now) as [b st1].
      destruct b, ok; exact Hin. }
    apply store_rows in Hin' as [Hin' | ->]; auto.
    simpl in Htok. subst. contradiction.
  - unfold reset_password.
    destruct (_validate_reset_token st t now) as [v|]; [|exact Hall].
    destruct (_ || _); [exact Hall|].
    destruct (Nat.ltb _ _); [exact Hall|].
    unfold _update_user_password, _mark_token_as_used.
    destruct ok; simpl; [|exact Hall].
    intros r Hin Htok. apply in_map_iff in Hin as (r0 & Hr0 & Hin).
    destruct (String.eqb (tr_token r0) t); subst; simpl in *; auto.
  - exact Hall.
  - intros r Hin Htok. apply filter_In in Hin as [Hin _]. auto.
Qed.

Lemma run_calls_keeps_used (hash : pystr -> string) (cs : list service_call) (tok : string) :
  forall st,
  (forall r, In r (password_reset_tokens st) -> tr_token r = tok -> tr_used r = true) ->
  (forall c, In c cs -> generated_token c <> Some tok) ->
  forall r, In r (password_reset_tokens (run_calls hash st cs)) -> tr_token r = tok -> tr_used r = true.
Proof.
  induction cs as [|c cs IH]; simpl; intros st Hall Hgen; [exact Hall|].
  apply IH; auto.
  apply run_call_keeps_used; auto.
Qed.

Lemma validate_all_used (st : db) (tok : string) (now : Z) :
  (forall r, In r (password_reset_tokens st) -> tr_token r = tok -> tr_used r = true) ->
  _validate_reset_token st tok now = None.
Proof.
  intros Hall. unfold _validate_reset_token.
  destruct (find_token tok _) as [r|] eqn:Hf; [|reflexivity].
  apply find_token_some in Hf as [Hin Htok].
  rewrite (Hall r Hin Htok). destruct (find_user_by_id _ _); reflexivity.
Qed.

(** C3: from a reachable state in which the token [tok] is marked used, any
    sequence of service calls whose generated tokens are not [tok] (tokens
    are globally unique) leaves every row of [tok] used, and [tok] never
    validates again, whatever the time. *)
Theorem used_is_terminal (hash : pystr -> string) (st : db) (cs : list service_call)
  (tok : string) :
  reachable hash st ->
  (exists r, In r (password_reset_tokens st) /\ tr_token r = tok /\ tr_used r = true) ->
  (forall c, In c cs -> generated_token c <> Some tok) ->
  (forall r, In r (password_reset_tokens (run_calls hash st cs)) ->
             tr_token r = tok -> tr_used r = true) /\
  (forall now, _validate_reset_token (run_calls hash st cs) tok now = None).
Proof.
  intros Hr (r0 & Hin0 & Htok0 & Hused0) Hgen.
  pose proof (reachable_well_formed hash st Hr) as (Ht & _ & _).
  assert (Hall : forall r, In r (password_reset_tokens st) -> tr_token r = tok -> tr_used r = true).
  { intros r Hin Htok.
    rewrite (nodup_map_inj tr_token _ r r0 Ht Hin Hin0 ltac:(congruence)). exact Hused0. }
  pose proof (run_calls_keeps_used hash cs tok st Hall Hgen) as Hend.
  split; [exact Hend|].
  intros now. apply validate_all_used; exact Hend.
Qed.

Lemma used_is_terminal_witness :
  _validate_reset_token
    (run_calls hash_id consumed_db
       [CallValidate "tokA" 20; CallRequest "bob@example.com" "tokB" 30 true]) "tokA" 15 = None.
Proof.
  assert (Hr : reachable hash_id consumed_db)
    by exact (reachable_step hash_id _ _
                (reachable_step hash_id _ _ (reachable_init hash_id [alice; bob]))).
  apply (proj2 (used_is_terminal hash_id consumed_db
                  [CallValidate "tokA" 20; CallRequest "bob@example.com" "tokB" 30 true] "tokA" Hr
                  ltac:(exists (mk_token_row 1 "tokA" token_ttl true);
                        split; [vm_compute; left; reflexivity | split; reflexivity])
                  ltac:(intros c [<- | [<- | []]]; simpl; congruence))).
Defined.

(** C4, as stated (the length check before the lookup, a ValidationError for
    every token) fails: with an unknown token and a 5-character password the
    lookup runs first and the answer is the invalid-token error. *)
Lemma short_password_after_lookup :
  ~ (forall st tok pw now ok, (length pw < 8)%nat ->
       fst (reset_password hash_id st tok pw now ok) =
       RError "Password must be at least 8 characters long").
Proof.
  intros H.
  specialize (H issued_db "unknown" short_password 10 true ltac:(simpl; lia)).
  vm_compute in H. discriminate.
Qed.

(** C4 (amended): for a password shorter than 8 characters, [reset_password]
    fails and leaves the database unchanged; the token lookup (a read) comes
    first: a token that validates to a user with an email and an id gets the
    password-length error, any other token the invalid-token error. *)
Theorem short_password_rejected (hash : pystr -> string) (st : db) (tok : string)
  (pw : pystr) (now : Z) (update_ok : bool) :
  (length pw < 8)%nat ->
  snd (reset_password hash st tok pw now update_ok) = st /\
  fst (reset_password hash st tok pw now update_ok) =
    match _validate_reset_token st tok now with
    | Some u =>
        if String.eqb (ru_email u) "" || Z.eqb (ru_id u) 0
        then RError "Invalid or expired reset token"
        else RError "Password must be at least 8 characters long"
    | None => RError "Invalid or expired reset token"
    end.
Proof.
  intros Hlen. unfold reset_password.
  destruct (_validate_reset_token st tok now) as [u|]; [|auto].
  destruct (_ || _); [auto|].
  apply Nat.ltb_lt in Hlen. rewrite Hlen. auto.
Qed.

Lemma short_password_rejected_witness :
  reset_password hash_id issued_db "tokA" short_password 10 true =
  (RError "Password must be at least 8 characters long", issued_db).
Proof.
  destruct (short_password_rejected hash_id issued_db "tokA" short_password 10 true
              ltac:(simpl; lia)) as [H1 H2].
  destruct (reset_password hash_id issued_db "tokA" short_password 10 true) as [res st'].
  simpl in H1, H2. rewrite H1, H2. reflexivity.
Defined.

(** C5: for an email without a user, [request_password_reset] answers the
    generic success message and issues no token; every success answer of the
    call, for any state and email, is this same answer. *)
Theorem unknown_email_generic_success (st : db) (email gen : string) (now : Z)
  (mail_ok : bool) :
  find_by_email email (users st) = None ->
  request_password_reset st email gen now mail_ok = (RSuccess generic_reset_message, st) /\
  (forall st2 email2 gen2 now2 mail_ok2 m,
     fst (request_password_reset st2 email2 gen2 now2 mail_ok2) = RSuccess m ->
     fst (request_password_reset st2 email2 gen2 now2 mail_ok2) =
     fst (request_password_reset st email gen now mail_ok)).
Proof.
  intros Hnone.
  assert (Hreq : request_password_reset st email gen now mail_ok =
                 (RSuccess generic_reset_message, st))
    by (unfold request_password_reset; rewrite Hnone; reflexivity).
  split; [exact Hreq|]. rewrite Hreq; simpl.
  intros st2 email2 gen2 now2 ok2 m.
  unfold request_password_reset.
  destruct (find_by_email email2 (users st2)) as [u|]; simpl; [|auto].
  destruct (Z.eqb (u_id u) 0); simpl; [auto|].
  destruct (_store_reset_token st2 (u_id u) gen2 now2) as [b st1].
  destruct b, ok2; simpl; intros Hs; auto; discriminate.
Qed.

Lemma unknown_email_generic_success_witness :
  request_password_reset issued_db "carol@example.com" "tokC" 20 true =
  (RSuccess generic_reset_message, issued_db).
Proof.
  apply (unknown_email_generic_success issued_db "carol@example.com" "tokC" 20 true).
  reflexivity.
Defined.

(** C6: when the credential UPDATE fails, [reset_password] answers an error
    and leaves the database as it was, so the token validates afterwards
    exactly as before; if the token validated and the password was long
    enough, the error is the update failure. *)
Theorem failed_update_keeps_token (hash : pystr -> string) (st : db) (tok : string)
  (pw : pystr) (now : Z) :
  (exists e, reset_password hash st tok pw now false = (RError e, st)) /\
  (forall now', _validate_reset_token (snd (reset_password hash st tok pw now false)) tok now' =
                _validate_reset_token st tok now') /\
  (forall u, _validate_reset_token st tok now = Some u ->
     ru_email u <> "" -> ru_id u <> 0 -> (8 <= length pw)%nat ->
     fst (reset_password hash st tok pw now false) = RError "Failed to update password").
Proof.
  assert (Hres : exists e, reset_password hash st tok pw now false = (RError e, st)).
  { unfold reset_password.
    destruct (_validate_reset_token st tok now) as [u|]; [|eauto].
    destruct (_ || _); [eauto|].
    destruct (Nat.ltb _ _); simpl; eauto. }
  split; [exact Hres|]. split.
  - intros now'. destruct Hres as [e ->]. reflexivity.
  - intros u Hv Hemail Hid Hlen. unfold reset_password. rewrite Hv.
    apply String.eqb_neq in Hemail. apply Z.eqb_neq in Hid.
    rewrite Hemail, Hid. simpl.
    replace (Nat.ltb (length pw) 8) with false by (symmetry; apply Nat.ltb_ge; exact Hlen).
    reflexivity.
Qed.

Lemma failed_update_keeps_token_witness :
  fst (reset_password hash_id issued_db "tokA" long_password 10 false) =
    RError "Failed to update password" /\
  _validate_reset_token (snd (reset_password hash_id issued_db "tokA" long_password 10 false))
    "tokA" 20 = Some (mk_user_ref 1 "Alice" "alice@example.com").
Proof.
  destruct (failed_update_keeps_token hash_id issued_db "tokA" long_password 10)
    as (_ & Hsame & Herr).
  split.
  - apply (Herr (mk_user_ref 1 "Alice" "alice@example.com")).
    + vm_compute; reflexivity.
    + discriminate.
    + discriminate.
    + simpl; lia.
  - rewrite Hsame. vm_compute; reflexivity.
Defined.

(** C7: [cleanup_expired_tokens] deletes exactly the rows with [used] or
    [expires_at < now], keeps every other row (the unused ones with
    [now <= expires_at]), does not touch [users], and returns the number of
    rows it deleted. *)
Theorem cleanup_removes_exactly (st : db) (now : Z) :
  let '(n, st') := cleanup_expired_tokens st now in
  password_reset_tokens st' =
    filter (fun r => negb (purge_pred now r)) (password_reset_tokens st) /\
  users st' = users st /\
  n = Z.of_nat (length (password_reset_tokens st)) - Z.of_nat (length (password_reset_tokens st')) /\
  (forall r, In r (password_reset_tokens st) ->
     (In r (password_reset_tokens st') <-> tr_used r = false /\ now <= tr_expires_at r)).
Proof.
  unfold cleanup_expired_tokens; simpl.
  split; [reflexivity|]. split; [reflexivity|]. split.
  - pose proof (filter_length (purge_pred now) (password_reset_tokens st)) as Hl. lia.
  - intros r Hin. rewrite filter_In. unfold purge_pred.
    destruct (Z.ltb (tr_expires_at r) now) eqn:Hlt, (tr_used r); simpl;
      rewrite ?Z.ltb_lt, ?Z.ltb_ge in Hlt; split; intros H;
      try (destruct H; discriminate); try (destruct H; lia); auto.
Qed.

Example cleanup_mixed_example :
  cleanup_expired_tokens mixed_db 1000 =
  (5, mk_db [alice; bob] [mk_token_row 6 "v1" 1000 false; mk_token_row 7 "v2" 3000 false]).
Proof. reflexivity. Qed.

Lemma find_token_snoc (tok : string) (l : list token_row) (x : token_row) :
  ~ In tok (map tr_token l) -> tr_token x = tok -> find_token tok (l ++ [x]) = Some x.
Proof.
  unfold find_token. induction l as [|a l IH]; simpl; intros Hnot Hx.
  - rewrite Hx, String.eqb_refl. reflexivity.
  - destruct (String.eqb (tr_token a) tok) eqn:E.
    + apply String.eqb_eq in E. exfalso; apply Hnot; left; exact E.
    + apply IH; auto.
Qed.

(** C8: when the user exists and the INSERT succeeds (a fresh token) but the
    reset mail fails, [request_password_reset] answers the mail error, yet
    the new row stays in the table and validates, for that user, until it
    expires. *)
Theorem mail_failure_keeps_token (st : db) (email gen : string) (u : user) (now : Z) :
  find_by_email email (users st) = Some u ->
  u_id u <> 0 ->
  ~ In gen (map tr_token (password_reset_tokens st)) ->
  let '(res, st') := request_password_reset st email gen now false in
  res = RError "Failed to send password reset email" /\
  In (mk_token_row (u_id u) gen (now + token_ttl) false) (password_reset_tokens st') /\
  (forall now', now' <= now + token_ttl ->
     exists v, _validate_reset_token st' gen now' = Some v /\ ru_id v = u_id u).
Proof.
  intros Hu Hid Hfresh.
  assert (Hnot : ~ In gen (map tr_token
                    (password_reset_tokens (delete_tokens_of_user (u_id u) st)))).
  { simpl. intros Hin. apply Hfresh.
    apply in_map_iff in Hin as (r & Hr & Hin). apply filter_In in Hin as [Hin _].
    apply in_map_iff; eauto. }
  unfold request_password_reset. rewrite Hu.
  apply Z.eqb_neq in Hid. rewrite Hid.
  unfold _store_reset_token, insert_token. simpl.
  replace (find_token gen _) with (@None token_row)
    by (symmetry; apply find_token_none; exact Hnot).
  simpl. split; [reflexivity|]. split.
  - apply in_or_app. right; left; reflexivity.
  - intros now' Hle.
    destruct (find_user_by_id_in (u_id u) (users st)) as [w Hw].
    { apply in_map, (find_by_email_in email); exact Hu. }
    exists (mk_user_ref (u_id u) (u_name w) (u_email w)). split; [|reflexivity].
    unfold _validate_reset_token. simpl.
    rewrite find_token_snoc; [|exact Hnot|reflexivity]. simpl.
    rewrite Hw.
    replace (Z.ltb (now + token_ttl) now') with false
      by (symmetry; apply Z.ltb_ge; exact Hle).
    reflexivity.
Qed.

Lemma mail_failure_keeps_token_witness :
  fst (request_password_reset issued_db "bob@example.com" "tokB" 30 false) =
    RError "Failed to send password reset email" /\
  _validate_reset_token (snd (request_password_reset issued_db "bob@example.com" "tokB" 30 false))
    "tokB" 40 <> None.
Proof.
  pose proof (mail_failure_keeps_token issued_db "bob@example.com" "tokB" bob 30
                ltac:(reflexivity) ltac:(discriminate)
                ltac:(vm_compute; intros [H | []]; discriminate)) as H.
  destruct (request_password_reset issued_db "bob@example.com" "tokB" 30 false) as [res st'].
  destruct H as (Hres & _ & Hval). split; [exact Hres|].
  destruct (Hval 40 ltac:(vm_compute; discriminate)) as (v & Hv & _).
  simpl. rewrite Hv. discriminate.
Defined.

(** C9: [_mark_token_as_used] always answers [True] and is idempotent: a
    second call on the same token leaves the state of the first. *)
Theorem mark_used_idempotent (st : db) (tok : string) :
  fst (_mark_token_as_used st tok) = true /\
  _mark_token_as_used (snd (_mark_token_as_used st tok)) tok = _mark_token_as_used st tok.
Proof.
  split; [reflexivity|].
  unfold _mark_token_as_used, set_used; simpl. do 2 f_equal.
  rewrite map_map. apply map_ext. intros r.
  destruct (String.eqb (tr_token r) tok) eqn:E; simpl; rewrite E; reflexivity.
Qed.

(** C10: marking a token that has no row answers [True] and changes
    nothing. *)
Theorem mark_unknown_token_noop (st : db) (tok : string) :
  ~ In tok (map tr_token (password_reset_tokens st)) ->
  _mark_token_as_used st tok = (true, st).
Proof.
  intros Hnot. unfold _mark_token_as_used, set_used.
  destruct st as [us rows]; simpl in *. do 3 f_equal.
  rewrite <- (map_id rows) at 2. apply map_ext_in. intros r Hin.
  destruct (String.eqb (tr_token r) tok) eqn:E; [|reflexivity].
  apply String.eqb_eq in E. exfalso; apply Hnot. rewrite <- E. apply in_map; exact Hin.
Qed.

Lemma mark_unknown_token_noop_witness :
  _mark_token_as_used issued_db "unknown" = (true, issued_db).
Proof.
  apply mark_unknown_token_noop. vm_compute. intros [H | []]; discriminate.
Defined.

(** ** Further properties of the service *)

Lemma length_list_ascii (s : string) : length (list_ascii_of_string s) = String.length s.
Proof. induction s as [|c s IH]; simpl; auto. Qed.

Lemma index_of_spec (c : ascii) (l : list ascii) (d : ascii) :
  In c l -> (index_of c l < length l)%nat /\ nth (index_of c l) l d = c.
Proof.
  induction l as [|x l IH]; simpl; intros Hin; [contradiction|].
  destruct (Ascii.eqb x c) eqn:E.
  - apply Ascii.eqb_eq in E. split; [lia | exact E].
  - destruct Hin as [-> | Hin]; [rewrite Ascii.eqb_refl in E; discriminate|].
    destruct (IH Hin) as [H1 H2]. split; [lia | exact H2].
Qed.

Lemma map_nth_seq_all {A} (l : list A) (d : A) :
  map (fun k => nth k l d) (seq 0 (length l)) = l.
Proof.
  induction l as [|a l IH]; simpl; [reflexivity|]. f_equal.
  rewrite <- seq_shift, map_map. exact IH.
Qed.

(** [_generate_reset_token] answers a 32-character string over the 62
    letters and digits, and every such string is an answer for some
    sequence of [randbelow(62)] draws. *)
Theorem generate_token_space (draw : nat -> nat) :
  (forall k, (draw k < 62)%nat) ->
  String.length token_alphabet = 62%nat /\
  String.length (_generate_reset_token draw) = 32%nat /\
  (forall c, In c (list_ascii_of_string (_generate_reset_token draw)) ->
             In c (list_ascii_of_string token_alphabet)) /\
  (forall s, String.length s = 32%nat ->
     (forall c, In c (list_ascii_of_string s) -> In c (list_ascii_of_string token_alphabet)) ->
     exists draw', (forall k, (draw' k < 62)%nat) /\ _generate_reset_token draw' = s).
Proof.
  intros Hdraw. unfold _generate_reset_token.
  split; [reflexivity|]. split; [|split].
  - rewrite <- length_list_ascii, list_ascii_of_string_of_list_ascii, length_map, length_seq.
    reflexivity.
  - rewrite list_ascii_of_string_of_list_ascii. intros c Hc.
    apply in_map_iff in Hc as (k & <- & _).
    apply nth_In. specialize (Hdraw k). exact Hdraw.
  - intros s Hlen Hall.
    set (A := list_ascii_of_string token_alphabet).
    set (S := list_ascii_of_string s).
    exists (fun k => if Nat.ltb k 32 then index_of (nth k S "0"%char) A else 0%nat).
    split.
    + intros k. destruct (Nat.ltb k 32) eqn:Hk; [|lia].
      apply Nat.ltb_lt in Hk.
      assert (Hin : In (nth k S "0"%char) A).
      { apply Hall, nth_In. unfold S. rewrite length_list_ascii. lia. }
      exact (proj1 (index_of_spec _ _ "0"%char Hin)).
    + assert (HS : length S = 32%nat) by (unfold S; rewrite length_list_ascii; exact Hlen).
      rewrite <- (string_of_list_ascii_of_string s). f_equal.
      change (list_ascii_of_string s) with S.
      transitivity (map (fun k => nth k S "0"%char) (seq 0 32)).
      * apply map_ext_in. intros k Hk. apply in_seq in Hk.
        replace (Nat.ltb k 32) with true by (symmetry; apply Nat.ltb_lt; lia).
        assert (Hin : In (nth k S "0"%char) A)
          by (apply Hall, nth_In; rewrite length_list_ascii; lia).
        exact (proj2 (index_of_spec _ _ "0"%char Hin)).
      * rewrite <- HS. apply map_nth_seq_all.
Qed.

Lemma generate_token_space_witness :
  String.length (_generate_reset_token (fun k => Nat.modulo k 62)) = 32%nat.
Proof.
  apply (generate_token_space (fun k => Nat.modulo k 62)).
  intros k. apply Nat.mod_upper_bound. discriminate.
Defined.

(** The branches of [reset_password]: it fails with the database unchanged,
    or it succeeds after the lookup, the checks and the update. *)
Lemma reset_password_cases (hash : pystr -> string) (st : db) (tok : string) (pw : pystr)
  (now : Z) (ok : bool) :
  (exists e, reset_password hash st tok pw now ok = (RError e, st)) \/
  (exists u, _validate_reset_token st tok now = Some u /\ ru_email u <> "" /\
     ru_id u <> 0 /\ (8 <= length pw)%nat /\ ok = true /\
     reset_password hash st tok pw now ok =
       (RSuccess "Password has been reset successfully",
        set_used tok (set_password (ru_id u) (hash pw) st))).
Proof.
  unfold reset_password.
  destruct (_validate_reset_token st tok now) as [u|]; [|left; eauto].
  destruct (String.eqb (ru_email u) "") eqn:He; simpl; [left; eauto|].
  destruct (Z.eqb (ru_id u) 0) eqn:Hi; simpl; [left; eauto|].
  destruct (Nat.ltb (length pw) 8) eqn:Hl; [left; eauto|].
  destruct ok; simpl; [|left; eauto].
  right. exists u. apply String.eqb_neq in He. apply Z.eqb_neq in Hi.
  apply Nat.ltb_ge in Hl. repeat split; auto.
Qed.

(** A failing [reset_password] leaves the database (users and tokens) as it
    was: it has no partial effect. *)
Theorem reset_failure_no_effect (hash : pystr -> string) (st : db) (tok : string)
  (pw : pystr) (now : Z) (ok : bool) (e : string) :
  fst (reset_password hash st tok pw now ok) = RError e ->
  snd (reset_password hash st tok pw now ok) = st.
Proof.
  destruct (reset_password_cases hash st tok pw now ok) as [[e' ->] | (u & _ & _ & _ & _ & _ & ->)];
    simpl; [auto | discriminate].
Qed.

Lemma reset_failure_no_effect_witness :
  snd (reset_password hash_id issued_db "unknown" long_password 10 true) = issued_db.
Proof. apply (reset_failure_no_effect _ _ _ _ _ _ "Invalid or expired reset token"). reflexivity. Defined.

(** A successful [reset_password] sets the stored password of the token's
    user to the hash of the new password, keeps every other user and every
    row of another token, and from then on the same token is refused at any
    time, whatever the password. *)
Theorem reset_success_effects (hash : pystr -> string) (st st' : db) (tok : string)
  (pw : pystr) (now : Z) (ok : bool) (m : string) :
  reset_password hash st tok pw now ok = (RSuccess m, st') ->
  exists u, _validate_reset_token st tok now = Some u /\
    (forall w, In w (users st') -> u_id w = ru_id u -> u_password w = hash pw) /\
    (forall w, In w (users st) -> u_id w <> ru_id u -> In w (users st')) /\
    (forall r, In r (password_reset_tokens st) -> tr_token r <> tok ->
               In r (password_reset_tokens st')) /\
    (forall pw' now' ok',
       reset_password hash st' tok pw' now' ok' = (RError "Invalid or expired reset token", st')).
Proof.
  intros Hres.
  destruct (reset_password_cases hash st tok pw now ok)
    as [[e He] | (u & Hv & _ & _ & _ & _ & Hs)]; rewrite Hres in *; [discriminate|].
  injection Hs as _ Hst. subst st'. exists u. split; [exact Hv|]. split; [|split; [|split]].
  - simpl. intros w Hw Hid. apply in_map_iff in Hw as (w0 & <- & _).
    destruct (Z.eqb (u_id w0) (ru_id u)) eqn:E; simpl in *; [reflexivity|].
    apply Z.eqb_neq in E. contradiction.
  - simpl. intros w Hw Hid. apply in_map_iff. exists w. split; [|exact Hw].
    apply Z.eqb_neq in Hid. rewrite Hid. reflexivity.
  - simpl. intros r Hr Htok. apply in_map_iff. exists r. split; [|exact Hr].
    apply String.eqb_neq in Htok. rewrite Htok. reflexivity.
  - intros pw' now' ok'. unfold reset_password.
    rewrite validate_all_used; [reflexivity|].
    simpl. intros r Hr Htok. apply in_map_iff in Hr as (r0 & <- & _).
    destruct (String.eqb (tr_token r0) tok) eqn:E; simpl in *; [reflexivity|].
    rewrite Htok, String.eqb_refl in E. discriminate.
Qed.

Lemma reset_success_effects_witness :
  reset_password hash_id consumed_db "tokA" long_password 20 true =
  (RError "Invalid or expired reset token", consumed_db).
Proof.
  destruct (reset_success_effects hash_id issued_db consumed_db "tokA" long_password 10 true
              "Password has been reset successfully" ltac:(reflexivity))
    as (u & _ & _ & _ & _ & H).
  apply H.
Defined.

(** With a password of at least 8 characters and a working credential
    update, [reset_password] succeeds exactly when [validate_reset_token]
    reports the token valid with a non-empty email, for a user with a
    non-zero id. *)
Theorem reset_accepts_iff_valid (hash : pystr -> string) (st : db) (tok : string)
  (pw : pystr) (now : Z) :
  (8 <= length pw)%nat ->
  ((exists m, fst (reset_password hash st tok pw now true) = RSuccess m) <->
   exists u, _validate_reset_token st tok now = Some u /\
             validate_reset_token st tok now = Some (ru_email u) /\
             ru_email u <> "" /\ ru_id u <> 0).
Proof.
  intros Hlen. split.
  - intros (m & Hm).
    destruct (reset_password_cases hash st tok pw now true)
      as [[e He] | (u & Hv & He & Hi & _ & _ & _)]; [rewrite He in Hm; discriminate|].
    exists u. unfold validate_reset_token. rewrite Hv. auto.
  - intros (u & Hv & _ & He & Hi). unfold reset_password. rewrite Hv.
    apply String.eqb_neq in He. apply Z.eqb_neq in Hi. rewrite He, Hi. simpl.
    replace (Nat.ltb (length pw) 8) with false by (symmetry; apply Nat.ltb_ge; exact Hlen).
    simpl. eauto.
Qed.

Lemma reset_accepts_iff_valid_witness :
  exists m, fst (reset_password hash_id issued_db "tokA" long_password 10 true) = RSuccess m.
Proof.
  apply (proj2 (reset_accepts_iff_valid hash_id issued_db "tokA" long_password 10
                  ltac:(simpl; lia))).
  exists (mk_user_ref 1 "Alice" "alice@example.com").
  repeat split; try reflexivity; discriminate.
Defined.

Lemma rows_of_user_after_delete (uid uid' : Z) (l : list token_row) :
  rows_of_user uid' (rows_of_others uid l) =
  if Z.eqb uid' uid then [] else rows_of_user uid' l.
Proof.
  unfold rows_of_user, rows_of_others.
  induction l as [|r l IH]; simpl; [destruct (Z.eqb uid' uid); reflexivity|].
  destruct (Z.eqb (tr_user_id r) uid) eqn:E1; simpl.
  - rewrite IH. destruct (Z.eqb uid' uid) eqn:E2; [reflexivity|].
    apply Z.eqb_eq in E1. subst.
    replace (Z.eqb (tr_user_id r) uid') with false; [reflexivity|].
    symmetry; apply Z.eqb_neq; intros H; apply Z.eqb_neq in E2; congruence.
  - destruct (Z.eqb (tr_user_id r) uid') eqn:E3; simpl; rewrite IH;
      destruct (Z.eqb uid' uid) eqn:E2; auto.
    apply Z.eqb_eq in E3, E2. subst. rewrite Z.eqb_refl in E1. discriminate.
Qed.

Lemma rows_of_others_twice (uid : Z) (l : list token_row) :
  rows_of_others uid (rows_of_others uid l) = rows_of_others uid l.
Proof.
  unfold rows_of_others. induction l as [|r l IH]; simpl; [reflexivity|].
  destruct (Z.eqb (tr_user_id r) uid) eqn:E; simpl; rewrite ?E; simpl; rewrite IH; reflexivity.
Qed.

Lemma rows_of_user_app (uid : Z) (l1 l2 : list token_row) :
  rows_of_user uid (l1 ++ l2)%list = (rows_of_user uid l1 ++ rows_of_user uid l2)%list.
Proof. unfold rows_of_user. apply filter_app. Qed.

Lemma rows_of_others_app (uid : Z) (l1 l2 : list token_row) :
  rows_of_others uid (l1 ++ l2)%list = (rows_of_others uid l1 ++ rows_of_others uid l2)%list.
Proof. unfold rows_of_others. apply filter_app. Qed.

(** A successful [_store_reset_token] leaves the user exactly one row, the
    new unused token expiring one hour later, and leaves the rows of the
    other users and the users table as they were. *)
Theorem store_success_single_row (st st' : db) (uid : Z) (tok : string) (now : Z) :
  _store_reset_token st uid tok now = (true, st') ->
  rows_of_user uid (password_reset_tokens st') = [mk_token_row uid tok (now + token_ttl) false] /\
  rows_of_others uid (password_reset_tokens st') = rows_of_others uid (password_reset_tokens st) /\
  users st' = users st.
Proof.
  unfold _store_reset_token, insert_token.
  destruct (find_token _ _); intros H; [discriminate|].
  injection H as <-. simpl.
  change (filter (fun r => negb (Z.eqb (tr_user_id r) uid)) (password_reset_tokens st))
    with (rows_of_others uid (password_reset_tokens st)).
  rewrite rows_of_user_app, rows_of_others_app, rows_of_user_after_delete, rows_of_others_twice.
  rewrite Z.eqb_refl. unfold rows_of_user, rows_of_others. simpl.
  rewrite Z.eqb_refl. simpl. rewrite app_nil_r. auto.
Qed.

Lemma store_success_single_row_witness :
  rows_of_user 1 (password_reset_tokens (snd (_store_reset_token issued_db 1 "tokA2" 50))) =
  [mk_token_row 1 "tokA2" (50 + token_ttl) false].
Proof.
  destruct (store_success_single_row issued_db (snd (_store_reset_token issued_db 1 "tokA2" 50))
              1 "tokA2" 50 ltac:(vm_compute; reflexivity)) as [H _].
  exact H.
Defined.

(** When the new token collides with another user's token, the INSERT fails
    and [request_password_reset] answers an error, but the DELETE of the
    requesting user's earlier tokens is not undone: the user is left with no
    token, the other users' rows are untouched. *)
Theorem store_collision_drops_old_tokens (st : db) (email gen : string) (u : user)
  (now : Z) (mail_ok : bool) (r : token_row) :
  find_by_email email (users st) = Some u -> u_id u <> 0 ->
  In r (password_reset_tokens st) -> tr_token r = gen -> tr_user_id r <> u_id u ->
  fst (request_password_reset st email gen now mail_ok) =
    RError "Failed to process password reset request" /\
  rows_of_user (u_id u) (password_reset_tokens (snd (request_password_reset st email gen now mail_ok))) = [] /\
  rows_of_others (u_id u) (password_reset_tokens (snd (request_password_reset st email gen now mail_ok))) =
    rows_of_others (u_id u) (password_reset_tokens st).
Proof.
  intros Hu Hid Hin Htok Huid.
  unfold request_password_reset. rewrite Hu.
  apply Z.eqb_neq in Hid. rewrite Hid.
  unfold _store_reset_token, insert_token. simpl.
  destruct (find_token gen _) eqn:Hf.
  - simpl. change (filter (fun r => negb (Z.eqb (tr_user_id r) (u_id u))) (password_reset_tokens st))
      with (rows_of_others (u_id u) (password_reset_tokens st)).
    rewrite rows_of_user_after_delete, Z.eqb_refl, rows_of_others_twice. auto.
  - exfalso. apply find_token_none in Hf. apply Hf.
    apply in_map_iff. exists r. split; [exact Htok|].
    apply filter_In. split; [exact Hin|].
    apply Z.eqb_neq in Huid. rewrite Huid. reflexivity.
Qed.

Lemma store_collision_drops_old_tokens_witness :
  fst (request_password_reset issued_db "bob@example.com" "tokA" 20 true) =
    RError "Failed to process password reset request".
Proof.
  apply (store_collision_drops_old_tokens issued_db "bob@example.com" "tokA" bob 20 true
           (mk_token_row 1 "tokA" token_ttl false)); try reflexivity.
  - discriminate.
  - vm_compute. left; reflexivity.
  - discriminate.
Defined.

(** [request_password_reset] never changes the users table, and it never
    changes the rows of a user other than the one the email belongs to. *)
Theorem request_touches_only_requester (st : db) (email gen : string) (now : Z)
  (mail_ok : bool) (uid : Z) :
  (forall u, find_by_email email (users st) = Some u -> u_id u <> uid) ->
  users (snd (request_password_reset st email gen now mail_ok)) = users st /\
  rows_of_user uid (password_reset_tokens (snd (request_password_reset st email gen now mail_ok))) =
    rows_of_user uid (password_reset_tokens st).
Proof.
  intros Hother. unfold request_password_reset.
  destruct (find_by_email email (users st)) as [u|] eqn:Hu; [|auto].
  destruct (Z.eqb (u_id u) 0); [auto|].
  specialize (Hother u eq_refl).
  unfold _store_reset_token, insert_token.
  assert (Hne : Z.eqb uid (u_id u) = false) by (apply Z.eqb_neq; congruence).
  simpl. destruct (find_token gen _); simpl.
  - change (filter (fun r => negb (Z.eqb (tr_user_id r) (u_id u))) (password_reset_tokens st))
      with (rows_of_others (u_id u) (password_reset_tokens st)).
    rewrite rows_of_user_after_delete, Hne. auto.
  - change (filter (fun r => negb (Z.eqb (tr_user_id r) (u_id u))) (password_reset_tokens st))
      with (rows_of_others (u_id u) (password_reset_tokens st)).
    destruct mail_ok; simpl;
      rewrite rows_of_user_app, rows_of_user_after_delete, Hne;
      unfold rows_of_user at 2; simpl;
      replace (Z.eqb (u_id u) uid) with false by (symmetry; apply Z.eqb_neq; congruence);
      rewrite app_nil_r; auto.
Qed.

Lemma request_touches_only_requester_witness :
  rows_of_user 1 (password_reset_tokens (snd (request_password_reset issued_db "bob@example.com" "tokB" 20 true))) =
  rows_of_user 1 (password_reset_tokens issued_db).
Proof.
  apply (request_touches_only_requester issued_db "bob@example.com" "tokB" 20 true 1).
  intros u Hu. vm_compute in Hu. injection Hu as <-. discriminate.
Defined.

Lemma request_issues_row (st : db) (email gen : string) (u : user) (now : Z) (mail_ok : bool) :
  find_by_email email (users st) = Some u -> u_id u <> 0 ->
  ~ In gen (map tr_token (password_reset_tokens st)) ->
  request_password_reset st email gen now mail_ok =
    (if mail_ok then RSuccess generic_reset_message
     else RError "Failed to send password reset email",
     mk_db (users st)
       (rows_of_others (u_id u) (password_reset_tokens st) ++
        [mk_token_row (u_id u) gen (now + token_ttl) false])%list).
Proof.
  intros Hu Hid Hfresh.
  assert (Hnot : ~ In gen (map tr_token
                    (password_reset_tokens (delete_tokens_of_user (u_id u) st)))).
  { simpl. intros Hin. apply Hfresh.
    apply in_map_iff in Hin as (r & Hr & Hin). apply filter_In in Hin as [Hin _].
    apply in_map_iff; eauto. }
  unfold request_password_reset. rewrite Hu.
  apply Z.eqb_neq in Hid. rewrite Hid.
  unfold _store_reset_token, insert_token.
  replace (find_token gen _) with (@None token_row)
    by (symmetry; apply find_token_none; exact Hnot).
  destruct mail_ok; reflexivity.
Qed.

Lemma find_issued_row (st : db) (uid : Z) (gen : string) (exp : Z) :
  ~ In gen (map tr_token (password_reset_tokens st)) ->
  find_token gen (rows_of_others uid (password_reset_tokens st) ++ [mk_token_row uid gen exp false])%list =
  Some (mk_token_row uid gen exp false).
Proof.
  intros Hfresh. apply find_token_snoc; [|reflexivity].
  intros Hin. apply Hfresh.
  apply in_map_iff in Hin as (r & Hr & Hin). apply filter_In in Hin as [Hin _].
  apply in_map_iff; eauto.
Qed.

(** When the reset mail cannot be sent, [request_password_reset] answers an
    error for an email that belongs to a user (whose token is stored) but
    the generic success for an email without a user: in that case the answer
    tells whether the email exists. *)
Theorem mail_failure_reveals_existence (st st2 : db) (email gen : string) (u : user) (now : Z) :
  find_by_email email (users st) = Some u -> u_id u <> 0 ->
  ~ In gen (map tr_token (password_reset_tokens st)) ->
  find_by_email email (users st2) = None ->
  fst (request_password_reset st email gen now false) = RError "Failed to send password reset email" /\
  fst (request_password_reset st2 email gen now false) = RSuccess generic_reset_message.
Proof.
  intros Hu Hid Hfresh Hnone.
  rewrite (request_issues_row st email gen u now false Hu Hid Hfresh).
  unfold request_password_reset. rewrite Hnone. auto.
Qed.

Lemma mail_failure_reveals_existence_witness :
  fst (request_password_reset issued_db "bob@example.com" "tokB" 20 false) <>
  fst (request_password_reset issued_db "carol@example.com" "tokB" 20 false).
Proof.
  destruct (mail_failure_reveals_existence issued_db (mk_db [alice] []) "bob@example.com" "tokB"
              bob 20 ltac:(reflexivity) ltac:(discriminate)
              ltac:(vm_compute; intros [H | []]; discriminate) ltac:(reflexivity)) as [H1 _].
  rewrite H1. vm_compute. discriminate.
Defined.

(** [EmailService] falls back to the console when the SMTP username or
    password is empty; then sending a reset mail always succeeds, so a reset
    request for an existing user with a fresh token answers the generic
    success and stores the token. *)
Theorem console_mail_request_succeeds (es : email_service) (st : db) (email gen : string)
  (u : user) (now : Z) (smtp_ok : bool) :
  (use_console es = true <-> smtp_username es = "" \/ smtp_password es = "") /\
  (use_console es = true ->
   find_by_email email (users st) = Some u -> u_id u <> 0 ->
   ~ In gen (map tr_token (password_reset_tokens st)) ->
   fst (request_password_reset st email gen now
          (send_password_reset_email es email gen (Some (u_name u)) smtp_ok)) =
     RSuccess generic_reset_message /\
   find_token gen (password_reset_tokens
     (snd (request_password_reset st email gen now
             (send_password_reset_email es email gen (Some (u_name u)) smtp_ok)))) =
     Some (mk_token_row (u_id u) gen (now + token_ttl) false)).
Proof.
  split.
  - unfold use_console.
    destruct (String.eqb (smtp_username es) "") eqn:E1, (String.eqb (smtp_password es) "") eqn:E2;
      simpl; rewrite ?String.eqb_eq, ?String.eqb_neq in *; split; intros H; auto;
      try discriminate; destruct H; contradiction.
  - intros Hc Hu Hid Hfresh.
    unfold send_password_reset_email, _send_email. rewrite Hc.
    rewrite (request_issues_row st email gen u now true Hu Hid Hfresh). simpl.
    split; [reflexivity|]. apply find_issued_row; exact Hfresh.
Qed.

Lemma console_mail_request_succeeds_witness :
  fst (request_password_reset issued_db "bob@example.com" "tokB" 20
         (send_password_reset_email (mk_email_service "" "") "bob@example.com" "tokB"
            (Some "Bob") false)) = RSuccess generic_reset_message.
Proof.
  apply (proj2 (console_mail_request_succeeds (mk_email_service "" "") issued_db
                  "bob@example.com" "tokB" bob 20 false)); try reflexivity.
  - discriminate.
  - vm_compute. intros [H | []]; discriminate.
Defined.

(** Running [cleanup_expired_tokens] twice at the same time: the second run
    deletes nothing and answers 0. *)
Theorem cleanup_idempotent (st : db) (now : Z) :
  cleanup_expired_tokens (snd (cleanup_expired_tokens st now)) now =
  (0, snd (cleanup_expired_tokens st now)).
Proof.
  unfold cleanup_expired_tokens; simpl.
  assert (Hnone : filter (purge_pred now)
                    (filter (fun r => negb (purge_pred now r)) (password_reset_tokens st)) = []).
  { induction (password_reset_tokens st) as [|r l IH]; simpl; [reflexivity|].
    destruct (purge_pred now r) eqn:E; simpl; [exact IH|]. rewrite E. exact IH. }
  assert (Hkeep : filter (fun r => negb (purge_pred now r))
                    (filter (fun r => negb (purge_pred now r)) (password_reset_tokens st)) =
                  filter (fun r => negb (purge_pred now r)) (password_reset_tokens st)).
  { clear Hnone. induction (password_reset_tokens st) as [|r l IH]; simpl; [reflexivity|].
    destruct (purge_pred now r) eqn:E; simpl; [exact IH|]. rewrite E. simpl. f_equal; exact IH. }
  rewrite Hnone, Hkeep. reflexivity.
Qed.

Lemma validate_same_row (st1 st2 : db) (tok : string) (now : Z) :
  users st1 = users st2 ->
  find_token tok (password_reset_tokens st1) = find_token tok (password_reset_tokens st2) ->
  _validate_reset_token st1 tok now = _validate_reset_token st2 tok now.
Proof. intros Hu Hf. unfold _validate_reset_token. rewrite Hu, Hf. reflexivity. Qed.

(** In a reachable state, [cleanup_expired_tokens] run at time [now] never
    changes the outcome of a token validation at [now] or later: it only
    deletes rows that could no longer validate. *)
Theorem cleanup_preserves_validation (hash : pystr -> string) (st : db) (now now' : Z)
  (tok : string) :
  reachable hash st -> now <= now' ->
  _validate_reset_token (snd (cleanup_expired_tokens st now)) tok now' =
  _validate_reset_token st tok now'.
Proof.
  intros Hr Hle.
  pose proof (reachable_well_formed hash st Hr) as (Ht & _ & _).
  set (kept := filter (fun r => negb (purge_pred now r)) (password_reset_tokens st)).
  assert (Hst : snd (cleanup_expired_tokens st now) = mk_db (users st) kept) by reflexivity.
  rewrite Hst.
  destruct (find_token tok (password_reset_tokens st)) as [r|] eqn:Hf.
  - destruct (find_token_some _ _ _ Hf) as [Hin Htok].
    destruct (purge_pred now r) eqn:Hp.
    + assert (Hk : find_token tok kept = None).
      { apply find_token_none. intros Hin'.
        apply in_map_iff in Hin' as (r' & Hr' & Hin').
        unfold kept in Hin'. apply filter_In in Hin' as [Hin' Hb].
        rewrite (nodup_map_inj tr_token _ r' r Ht Hin' Hin ltac:(congruence)), Hp in Hb.
        discriminate. }
      rewrite (validate_no_row (mk_db (users st) kept) tok now' Hk).
      unfold _validate_reset_token. rewrite Hf.
      destruct (find_user_by_id _ _); [|reflexivity].
      unfold purge_pred in Hp.
      destruct (tr_used r); [reflexivity|].
      rewrite orb_false_r in Hp. apply Z.ltb_lt in Hp.
      replace (Z.ltb (tr_expires_at r) now') with true by (symmetry; apply Z.ltb_lt; lia).
      reflexivity.
    + apply validate_same_row; [reflexivity|]. rewrite Hf. simpl.
      apply find_token_unique; [apply rows_filter_nodup; exact Ht| |exact Htok].
      apply filter_In. rewrite Hp. auto.
  - apply validate_same_row; [reflexivity|]. rewrite Hf. simpl.
    apply find_token_none. apply find_token_none in Hf. intros Hin. apply Hf.
    apply in_map_iff in Hin as (r & Hr' & Hin). unfold kept in Hin.
    apply filter_In in Hin as [Hin _]. apply in_map_iff; eauto.
Qed.

Lemma cleanup_preserves_validation_witness :
  _validate_reset_token (snd (cleanup_expired_tokens issued_db 100)) "tokA" 200 =
  _validate_reset_token issued_db "tokA" 200.
Proof.
  apply (cleanup_preserves_validation hash_id issued_db 100 200 "tokA").
  - exact (reachable_step hash_id _ _ (reachable_init hash_id [alice; bob])).
  - lia.
Defined.

(** End to end: a token issued by [request_password_reset] at time [now] is
    refused by [reset_password] at every time after [now] plus one hour, and
    the refusal changes nothing. *)
Theorem reset_after_expiry_refused (hash : pystr -> string) (st : db) (email gen : string)
  (u : user) (now now' : Z) (pw : pystr) (ok mail_ok : bool) :
  find_by_email email (users st) = Some u -> u_id u <> 0 ->
  ~ In gen (map tr_token (password_reset_tokens st)) ->
  now + token_ttl < now' ->
  reset_password hash (snd (request_password_reset st email gen now mail_ok)) gen pw now' ok =
  (RError "Invalid or expired reset token", snd (request_password_reset st email gen now mail_ok)).
Proof.
  intros Hu Hid Hfresh Hlt.
  rewrite (request_issues_row st email gen u now mail_ok Hu Hid Hfresh). simpl.
  unfold reset_password, _validate_reset_token. simpl.
  rewrite (find_issued_row st (u_id u) gen (now + token_ttl) Hfresh). simpl.
  destruct (find_user_by_id (u_id u) (users st)); [|reflexivity].
  replace (Z.ltb (now + token_ttl) now') with true by (symmetry; apply Z.ltb_lt; exact Hlt).
  reflexivity.
Qed.

Lemma reset_after_expiry_refused_witness :
  fst (reset_password hash_id (snd (request_password_reset issued_db "bob@example.com" "tokB" 0 true))
         "tokB" long_password (60 * 61) true) = RError "Invalid or expired reset token".
Proof.
  rewrite (reset_after_expiry_refused hash_id issued_db "bob@example.com" "tokB" bob 0 (60 * 61)
             long_password true true); try reflexivity.
  - discriminate.
  - vm_compute. intros [H | []]; discriminate.
Defined.

(** End to end: when [users.id] is a key and the email is non-empty, a
    token issued by [request_password_reset] at time [now] (whether or not
    the mail went out) lets [reset_password] succeed with a password of at
    least 8 characters at any time up to [now] plus one hour, and the user's
    stored password becomes the hash of the new one. *)
Theorem reset_within_ttl_succeeds (hash : pystr -> string) (st : db) (email gen : string)
  (u : user) (now now' : Z) (pw : pystr) (mail_ok : bool) :
  find_by_email email (users st) = Some u -> u_id u <> 0 -> email <> "" ->
  NoDup (map u_id (users st)) ->
  ~ In gen (map tr_token (password_reset_tokens st)) ->
  now' <= now + token_ttl -> (8 <= length pw)%nat ->
  exists st2,
    reset_password hash (snd (request_password_reset st email gen now mail_ok)) gen pw now' true =
      (RSuccess "Password has been reset successfully", st2) /\
    (forall w, In w (users st2) -> u_id w = u_id u -> u_password w = hash pw).
Proof.
  intros Hu Hid Hemail Hkey Hfresh Hle Hlen.
  pose proof (find_by_email_in _ _ _ Hu) as Huin.
  assert (Hmail : u_email u = email).
  { unfold find_by_email in Hu. apply find_some in Hu as [_ Hb].
    apply String.eqb_eq; exact Hb. }
  destruct (find_user_by_id_in (u_id u) (users st) ltac:(apply in_map; exact Huin)) as [w Hw].
  assert (Hwu : w = u).
  { unfold find_user_by_id in Hw. apply find_some in Hw as [Hwin Hb].
    apply Z.eqb_eq in Hb. exact (nodup_map_inj u_id _ w u Hkey Hwin Huin Hb). }
  subst w.
  rewrite (request_issues_row st email gen u now mail_ok Hu Hid Hfresh). simpl.
  unfold reset_password, _validate_reset_token. simpl.
  rewrite (find_issued_row st (u_id u) gen (now + token_ttl) Hfresh). simpl.
  rewrite Hw.
  replace (Z.ltb (now + token_ttl) now') with false by (symmetry; apply Z.ltb_ge; exact Hle).
  simpl. rewrite Hmail.
  replace (String.eqb email "") with false by (symmetry; apply String.eqb_neq; exact Hemail).
  replace (Z.eqb (u_id u) 0) with false by (symmetry; apply Z.eqb_neq; exact Hid).
  replace (Nat.ltb (length pw) 8) with false by (symmetry; apply Nat.ltb_ge; exact Hlen).
  simpl. eexists. split; [reflexivity|].
  simpl. intros w Hw' Hid'. apply in_map_iff in Hw' as (w0 & <- & _).
  destruct (Z.eqb (u_id w0) (u_id u)) eqn:E; simpl in *; [reflexivity|].
  apply Z.eqb_neq in E. contradiction.
Qed.

Lemma reset_within_ttl_succeeds_witness :
  fst (reset_password hash_id (snd (request_password_reset issued_db "bob@example.com" "tokB" 0 false))
         "tokB" long_password 3600 true) = RSuccess "Password has been reset successfully".
Proof.
  assert (Hkey : NoDup (map u_id (users issued_db))).
  { vm_compute. apply NoDup_cons; [intros [H | []]; discriminate|].
    apply NoDup_cons; [intros []| constructor]. }
  assert (Hfresh : ~ In "tokB" (map tr_token (password_reset_tokens issued_db))).
  { vm_compute. intros [H | []]; discriminate. }
  destruct (reset_within_ttl_succeeds hash_id issued_db "bob@example.com" "tokB" bob 0 3600
              long_password false eq_refl ltac:(discriminate) ltac:(discriminate) Hkey Hfresh
              ltac:(vm_compute; discriminate) ltac:(simpl; lia)) as (st2 & H & _).
  rewrite H. reflexivity.
Defined.

(** Every state reached by the service's calls keeps the table's
    invariants: tokens are unique, each user has at most one row, and every
    row's user exists (so the JOIN of the lookup finds it). *)
Theorem reachable_table_invariants (hash : pystr -> string) (st : db) :
  reachable hash st ->
  NoDup (map tr_token (password_reset_tokens st)) /\
  (forall uid, (length (rows_of_user uid (password_reset_tokens st)) <= 1)%nat) /\
  (forall r, In r (password_reset_tokens st) ->
     exists w, find_user_by_id (tr_user_id r) (users st) = Some w).
Proof.
  intros Hr. destruct (reachable_well_formed hash st Hr) as (Ht & Hu & Href).
  split; [exact Ht|]. split.
  - intros uid. apply (filter_one_user_le1 _ uid); [|exact Hu].
    intros r Hb. apply Z.eqb_eq; exact Hb.
  - intros r Hin. apply find_user_by_id_in, Href; exact Hin.
Qed.

Lemma reachable_table_invariants_witness :
  NoDup (map tr_token (password_reset_tokens consumed_db)).
Proof.
  apply (reachable_table_invariants hash_id consumed_db).
  exact (reachable_step hash_id _ _
           (reachable_step hash_id _ _ (reachable_init hash_id [alice; bob]))).
Defined.
